(** * Semantic value form directive (grrUi.forms.semanticValueFormDirective)

    A shallow embedding of
    [gui/static/angular-components/forms/semantic-value-form-directive.js]
    and the properties of its template cache, its identifier transform and
    its type-change handler. *)

From Stdlib Require Import Ascii String ZArith Bool Lia.
From stdpp Require Import gmap strings list pretty.

Local Open Scope string_scope.

(* stdpp blocks the unfolding of string concatenation; the markup proofs
   below compute with it. *)
#[local] Arguments String.append !_ _ / : simpl nomatch.

(** ** Strings

    A JavaScript string is modelled by [string]; a character is a code unit
    of the Latin-1 range, to which directive and type identifiers are taken
    to belong. *)

Module Chars.

Definition code (c : ascii) : nat := nat_of_ascii c.

(** [[a-z]] *)
Definition is_lower (c : ascii) : bool :=
  (97 <=? code c)%nat && (code c <=? 122)%nat.

(** [\d], which without the [u] flag is [[0-9]] *)
Definition is_digit (c : ascii) : bool :=
  (48 <=? code c)%nat && (code c <=? 57)%nat.

(** [[A-Z]] *)
Definition is_upper (c : ascii) : bool :=
  (65 <=? code c)%nat && (code c <=? 90)%nat.

(** [[a-z\d]] *)
Definition is_lower_or_digit (c : ascii) : bool := is_lower c || is_digit c.

(** Characters that [String.prototype.toLowerCase] changes in the Latin-1
    range: A-Z, and U+00C0..U+00DE without the multiplication sign U+00D7. *)
Definition has_lowercase (c : ascii) : bool :=
  is_upper c
  || ((192 <=? code c)%nat && (code c <=? 222)%nat && negb (code c =? 215)%nat).

Definition lower_char (c : ascii) : ascii :=
  if has_lowercase c then ascii_of_nat (code c + 32) else c.

End Chars.

Import Chars.

(** [s.toLowerCase()] *)
Fixpoint toLowerCase (s : string) : string :=
  match s with
  | EmptyString => EmptyString
  | String c r => String (lower_char c) (toLowerCase r)
  end.

(** [s.replace(/([a-z\d])([A-Z])/g, '$1-$2')]: the global replace scans from
    the left; at a match it emits the two captured characters with a dash in
    between and resumes after the match, otherwise it copies one character. *)
Fixpoint replace_lower_upper (s : string) : string :=
  match s with
  | EmptyString => EmptyString
  | String c1 EmptyString => String c1 EmptyString
  | String c1 (String c2 r as t) =>
      if is_lower_or_digit c1 && is_upper c2
      then String c1 (String "-" (String c2 (replace_lower_upper r)))
      else String c1 (replace_lower_upper t)
  end.

(** [SemanticValueFormController.prototype.camelCaseToDashDelimited] *)
Definition camelCaseToDashDelimited (directiveName : string) : string :=
  toLowerCase (replace_lower_upper directiveName).

(** The rule in the words of the specification: a dash goes between a
    lowercase-or-digit character and an uppercase character that immediately
    follows it, at every such place and nowhere else. *)
Fixpoint dash_between_pairs (s : string) : string :=
  match s with
  | EmptyString => EmptyString
  | String c1 t =>
      match t with
      | EmptyString => String c1 EmptyString
      | String c2 _ =>
          if is_lower_or_digit c1 && is_upper c2
          then String c1 (String "-" (dash_between_pairs t))
          else String c1 (dash_between_pairs t)
      end
  end.

Definition spec_camelCaseToDashDelimited (s : string) : string :=
  toLowerCase (dash_between_pairs s).

(** The naive rule the specification rules out: a dash before every
    uppercase character. *)
Fixpoint dash_before_upper (s : string) : string :=
  match s with
  | EmptyString => EmptyString
  | String c r =>
      if is_upper c then String "-" (String c (dash_before_upper r))
      else String c (dash_before_upper r)
  end.

Definition naive_camelCaseToDashDelimited (s : string) : string :=
  toLowerCase (dash_before_upper s).

(** ** JavaScript values and the rendering facility *)

(** The values the [type] property of a bound value can hold. *)
Inductive JsVal :=
  | JUndefined
  | JNull
  | JBool (b : bool)
  | JStr (s : string).

#[global] Instance JsVal_eq_dec : EqDecision JsVal.
Proof. solve_decision. Defined.

(** [angular.isUndefined] *)
Definition isUndefined (v : JsVal) : bool :=
  match v with JUndefined => true | _ => false end.

(** The property key [obj[v]] reads or writes: [ToString(v)]. *)
Definition to_key (v : JsVal) : string :=
  match v with
  | JUndefined => "undefined"
  | JNull => "null"
  | JBool true => "true"
  | JBool false => "false"
  | JStr s => s
  end.

(** What an interpolated expression of value [v] displays: nothing for
    [undefined] and [null]. *)
Definition to_display (v : JsVal) : string :=
  match v with
  | JUndefined | JNull => ""
  | JBool true => "true"
  | JBool false => "false"
  | JStr s => s
  end.

(** The descriptor the registry resolves a type to. *)
Record Directive := { directive_name : string }.

(** A compiled template: the factory [$compile(element)] returns, which
    keeps the markup of the element it was compiled from. *)
Record Template := { tmpl_html : string }.

#[global] Instance Template_eq_dec : EqDecision Template.
Proof. solve_decision. Defined.

(** What the output slot holds: clones of compiled templates, linked to the
    directive's scope. *)
Inductive Node := Cloned (t : Template).

Inductive Error := TypeError.

Inductive Completion :=
  | Normal
  | Throw (e : Error).

(** The double quote character of the markup. *)
Definition dq : string := String "034" EmptyString.

(** An element as markup describes it: a tag and its attributes in order. *)
Record ElementDesc := { el_tag : string; el_attrs : list (string * string) }.

Fixpoint serialize_attrs (attrs : list (string * string)) : string :=
  match attrs with
  | [] => ""
  | (name, binding) :: rest =>
      " " +:+ name +:+ "=" +:+ dq +:+ binding +:+ dq +:+ serialize_attrs rest
  end.

(** The self-closing tag of an element. *)
Definition serialize (e : ElementDesc) : string :=
  "<" +:+ el_tag e +:+ serialize_attrs (el_attrs e) +:+ " />".

Definition is_space (c : ascii) : bool := Ascii.eqb c " ".

Fixpoint trim_left (s : string) : string :=
  match s with
  | EmptyString => EmptyString
  | String c r => if is_space c then trim_left r else s
  end.

Fixpoint trim_right (s : string) : string :=
  match s with
  | EmptyString => EmptyString
  | String c r =>
      match trim_right r with
      | EmptyString => if is_space c then EmptyString else String c EmptyString
      | r' => String c r'
      end
  end.

Definition trim (s : string) : string := trim_right (trim_left s).

(** Modelled from the spec: the interpolation of the host templating
    facility with the application's symbols [{$] and [$}], which are
    configured outside this file. Outside an expression ([expr = None])
    characters are copied; between the symbols the expression text is
    collected and, at the end symbol, replaced by what [ev] displays for it.
    A start symbol that is never closed stays literal text. *)
Fixpoint interpolate_from (ev : string -> string) (expr : option string)
    (s : string) : string :=
  match s with
  | EmptyString =>
      match expr with
      | None => EmptyString
      | Some e => "{$" +:+ e
      end
  | String c r =>
      match expr, r with
      | None, String c' r' =>
          if Ascii.eqb c "{" && Ascii.eqb c' "$"
          then interpolate_from ev (Some EmptyString) r'
          else String c (interpolate_from ev None r)
      | None, EmptyString => String c EmptyString
      | Some e, String c' r' =>
          if Ascii.eqb c "$" && Ascii.eqb c' "}"
          then ev (trim e) +:+ interpolate_from ev None r'
          else interpolate_from ev (Some (e +:+ String c EmptyString)) r
      | Some e, EmptyString => "{$" +:+ e +:+ String c EmptyString
      end
  end.

Definition interpolate (ev : string -> string) (s : string) : string :=
  interpolate_from ev None s.

(** [needle] occurs in [hay]. *)
Definition Substring (needle hay : string) : Prop :=
  exists pre post, hay = pre +:+ needle +:+ post.

Fixpoint starts_with (needle hay : string) : bool :=
  match needle, hay with
  | EmptyString, _ => true
  | String a n', String b h' => Ascii.eqb a b && starts_with n' h'
  | String _ _, EmptyString => false
  end.

Fixpoint contains (needle hay : string) : bool :=
  starts_with needle hay
  || match hay with
     | EmptyString => false
     | String _ h' => contains needle h'
     end.

(** ** The controller and its global cache *)

(** A continuation waiting for the registry: the [then] callback of
    [onValueTypeChange_], which closes over the cache object and the value
    object that were current when the lookup missed. *)
Record Pending := {
  p_cache : nat;      (* the local [templatesCache] *)
  p_value : nat;      (* the local [value] *)
  p_request : JsVal   (* the argument of [findDirectiveForType] *)
}.

(** The program state.  Value objects and cache objects live in stores and
    are referred to by address, because the handler's closures keep
    references to them while the scope and the global move on.  A cache
    object is the finite map of its own properties; what it inherits
    ([constructor], [toString], ...) is added by the lookup of module
    [Prototype] below. *)
Record State := {
  (* the bound value objects: address to the [type] property *)
  objects : gmap nat JsVal;
  (* every object [templatesCache] has been bound to *)
  cacheObjects : gmap nat (gmap string Template);
  (* [grrUi.forms.semanticValueFormDirective.templatesCache] *)
  templatesCache : nat;
  (* [$scope.value]: an object, or [None] for undefined or null *)
  scope_value : option nat;
  (* the children of [$element] *)
  element_ : list Node;
  (* the promises of the registry that have not settled *)
  pending : list Pending;
  (* the calls of [findDirectiveForType] so far, oldest first *)
  resolution_calls : list JsVal
}.

Definition set_element (e : list Node) (st : State) : State :=
  {| objects := objects st; cacheObjects := cacheObjects st;
     templatesCache := templatesCache st; scope_value := scope_value st;
     element_ := e; pending := pending st;
     resolution_calls := resolution_calls st |}.

(** The process starts with [templatesCache = {}]. *)
Definition initial : State :=
  {| objects := ∅; cacheObjects := {[ 0 := ∅ ]}; templatesCache := 0;
     scope_value := None; element_ := []; pending := [];
     resolution_calls := [] |}.

(** The contents of the cache object at address [a]. *)
Definition cache_at (st : State) (a : nat) : gmap string Template :=
  default ∅ (cacheObjects st !! a).

(** The contents of the object the global is bound to. *)
Definition current_cache (st : State) : gmap string Template :=
  cache_at st (templatesCache st).

(** [value['type']] for the object at [l]; a missing property reads as
    [undefined]. *)
Definition type_of (st : State) (l : nat) : JsVal :=
  default JUndefined (objects st !! l).

(** What the watch expression ['value.type'] evaluates to on the scope. *)
Definition watched_type (st : State) : JsVal :=
  match scope_value st with
  | None => JUndefined
  | Some l => type_of st l
  end.

(** [grrUi.forms.semanticValueFormDirective.clearCaches]: the global is bound
    to a fresh empty object; the old object stays with whoever refers to it. *)
Definition clearCaches (st : State) : State :=
  let fresh := S (templatesCache st) in
  {| objects := objects st;
     cacheObjects := <[fresh := ∅]> (cacheObjects st);
     templatesCache := fresh; scope_value := scope_value st;
     element_ := element_ st; pending := pending st;
     resolution_calls := resolution_calls st |}.

(** [templatesCache[key] = template] on the cache object at [a]. *)
Definition cache_put (a : nat) (key : string) (t : Template) (st : State)
    : State :=
  {| objects := objects st;
     cacheObjects := <[a := <[key := t]> (cache_at st a)]> (cacheObjects st);
     templatesCache := templatesCache st; scope_value := scope_value st;
     element_ := element_ st; pending := pending st;
     resolution_calls := resolution_calls st |}.

(** The local function [updateElement].  A defined template is cloned and
    the clone appended.  For an undefined one the argument of [text] reads
    [this.value['type']], and the controller has no [value] property, so the
    read throws before [text] runs. *)
Definition updateElement (tmpl : option Template) (st : State)
    : Completion * State :=
  match tmpl with
  | Some t => (Normal, set_element (element_ st ++ [Cloned t]) st)
  | None => (Throw TypeError, st)
  end.

(** The markup [successHandler] puts into its span. *)
Definition success_html (directive : Directive) : string :=
  "<" +:+ camelCaseToDashDelimited (directive_name directive) +:+
  " metadata=" +:+ dq +:+ "metadata" +:+ dq +:+
  " value=" +:+ dq +:+ "value" +:+ dq +:+ " />".

(** The markup [failureHandler] puts into its span. *)
Definition failure_html : string :=
  "<p class=" +:+ dq +:+ "form-control-static" +:+ dq +:+ ">No directive " +:+
  "for type: {$ value.type $}.</p>".

Definition successHandler (directive : Directive) : Template :=
  {| tmpl_html := success_html directive |}.

Definition failureHandler : Template := {| tmpl_html := failure_html |}.

(** What the promise of [compileSingleTypedValueTemplate_] resolves to, given
    how the registry's promise settles: [Some directive] when it is
    fulfilled, [None] when it is rejected.  Both handlers return a template,
    so the promise is fulfilled either way. *)
Definition compiled_template (outcome : option Directive) : Template :=
  match outcome with
  | Some directive => successHandler directive
  | None => failureHandler
  end.

(** [compileSingleTypedValueTemplate_(value).then(...)]: the registry is
    asked for [value['type']] and the continuation is parked. *)
Definition compileSingleTypedValueTemplate_ (value : nat) (st : State)
    : State :=
  {| objects := objects st; cacheObjects := cacheObjects st;
     templatesCache := templatesCache st; scope_value := scope_value st;
     element_ := element_ st;
     pending := pending st ++
       [{| p_cache := templatesCache st; p_value := value;
           p_request := type_of st value |}];
     resolution_calls := resolution_calls st ++ [type_of st value] |}.

(** [SemanticValueFormController.prototype.onValueTypeChange_], with the
    lookup on the own properties of the cache; [Prototype.onValueTypeChange_]
    below adds what the cache inherits, and the two agree for every type
    whose key is not inherited. *)
Definition onValueTypeChange_ (newValue : JsVal) (st : State)
    : Completion * State :=
  let st := set_element [] st in
  if isUndefined newValue then (Normal, st)
  else
    match scope_value st with
    | None => (Throw TypeError, st)
    | Some value =>
        match current_cache st !! to_key (type_of st value) with
        | None => (Normal, compileSingleTypedValueTemplate_ value st)
        | Some template => updateElement (Some template) st
        end
    end.

Definition drop_pending (i : nat) (st : State) : State :=
  {| objects := objects st; cacheObjects := cacheObjects st;
     templatesCache := templatesCache st; scope_value := scope_value st;
     element_ := element_ st; pending := delete i (pending st);
     resolution_calls := resolution_calls st |}.

(** The registry's promise of the [i]-th parked continuation settles with
    [outcome], and the continuation
    [function(template) { templatesCache[value['type']] = template;
    updateElement(template); }] runs. *)
Definition settle (i : nat) (outcome : option Directive) (st : State)
    : Completion * State :=
  match pending st !! i with
  | None => (Normal, st)
  | Some p =>
      let template := compiled_template outcome in
      let st := drop_pending i st in
      let st := cache_put (p_cache p) (to_key (type_of st (p_value p)))
                  template st in
      updateElement (Some template) st
  end.

(** The embedding context assigns [value.type] of the object at [l]. *)
Definition set_type (l : nat) (v : JsVal) (st : State) : State :=
  {| objects := <[l := v]> (objects st); cacheObjects := cacheObjects st;
     templatesCache := templatesCache st; scope_value := scope_value st;
     element_ := element_ st; pending := pending st;
     resolution_calls := resolution_calls st |}.

(** The embedding context binds [$scope.value]. *)
Definition bind_value (v : option nat) (st : State) : State :=
  {| objects := objects st; cacheObjects := cacheObjects st;
     templatesCache := templatesCache st; scope_value := v;
     element_ := element_ st; pending := pending st;
     resolution_calls := resolution_calls st |}.

(** A render: the watch fires with the current value of ['value.type']. *)
Definition render (st : State) : Completion * State :=
  onValueTypeChange_ (watched_type st) st.

(** [n] renders in a row. *)
Fixpoint renders (n : nat) (st : State) : State :=
  match n with
  | O => st
  | S n' => renders n' (snd (render st))
  end.

(** What an expression of a template displays on the scope. *)
Definition eval_expr (st : State) (expr : string) : string :=
  if String.eqb expr "value.type" then to_display (watched_type st) else "".

(** The markup a node shows when expressions display as [ev] says. *)
Definition node_html (ev : string -> string) (n : Node) : string :=
  match n with
  | Cloned t => interpolate ev (tmpl_html t)
  end.

Fixpoint nodes_html (ev : string -> string) (ns : list Node) : string :=
  match ns with
  | [] => EmptyString
  | n :: rest => node_html ev n +:+ nodes_html ev rest
  end.

(** The markup of the output slot as displayed in state [st]: the clones
    are linked to the scope, so their expressions follow its current
    state.  It is the markup written into the templates; the span each
    template wraps it in is left out. *)
Definition rendered_html (st : State) : string :=
  nodes_html (eval_expr st) (element_ st).

(** The fallback markup with its expression replaced by [shown]. *)
Definition failure_text (shown : string) : string :=
  "<p class=" +:+ dq +:+ "form-control-static" +:+ dq +:+
  ">No directive for type: " +:+ shown +:+ ".</p>".

(** How often the registry was asked. *)
Definition resolution_count (st : State) : nat := length (resolution_calls st).

(** ** Scenarios *)

(** A directive whose scope is bound to one value object, of type [T], in a
    process that has rendered nothing yet. *)
Definition bound_to (T : JsVal) : State :=
  bind_value (Some 0) (set_type 0 T initial).

(** The first render of a value of type [T] and the settling of its
    resolution with [outcome]. *)
Definition rendered_once (T : JsVal) (outcome : option Directive) : State :=
  snd (settle 0 outcome (snd (render (bound_to T)))).

(** The host element [successHandler] writes for [directive]. *)
Definition host_element (directive : Directive) : ElementDesc :=
  {| el_tag := camelCaseToDashDelimited (directive_name directive);
     el_attrs := [("metadata", "metadata"); ("value", "value")] |}.

(** ** Measures of strings *)

(** Whether some character of [s] satisfies [p]. *)
Fixpoint any_char (p : ascii -> bool) (s : string) : bool :=
  match s with
  | EmptyString => false
  | String c r => p c || any_char p r
  end.

(** The number of places in [s] where a lowercase letter or digit is
    immediately followed by an uppercase letter. *)
Fixpoint count_lower_upper (s : string) : nat :=
  match s with
  | EmptyString => 0
  | String c1 t =>
      match t with
      | EmptyString => 0
      | String c2 _ =>
          if is_lower_or_digit c1 && is_upper c2
          then S (count_lower_upper t)
          else count_lower_upper t
      end
  end.

Definition is_dash (c : ascii) : bool := Ascii.eqb c "-".

(** [s] without its dashes. *)
Fixpoint remove_dashes (s : string) : string :=
  match s with
  | EmptyString => EmptyString
  | String c r => if is_dash c then remove_dashes r else String c (remove_dashes r)
  end.

(** ** Runs of the component *)

(** What can happen to a directive instance: the watch fires, a promise of
    the registry settles, the caches are cleared, or the embedding context
    assigns the type of a value object or binds another value. *)
Inductive Event :=
  | EvRender
  | EvSettle (i : nat) (outcome : option Directive)
  | EvClearCaches
  | EvSetType (l : nat) (v : JsVal)
  | EvBind (v : option nat).

Definition step (e : Event) (st : State) : State :=
  match e with
  | EvRender => snd (render st)
  | EvSettle i outcome => snd (settle i outcome st)
  | EvClearCaches => clearCaches st
  | EvSetType l v => set_type l v st
  | EvBind v => bind_value v st
  end.

(** The events of [es] in order, from [st]. *)
Fixpoint run (es : list Event) (st : State) : State :=
  match es with
  | [] => st
  | e :: rest => run rest (step e st)
  end.

(** Every parked continuation refers to a cache object that exists: one at
    or before the object the global is bound to. *)
Definition closures_behind (st : State) : Prop :=
  Forall (fun p => (p_cache p <= templatesCache st)%nat) (pending st).

(** A template one of the two handlers of
    [compileSingleTypedValueTemplate_] has returned. *)
Definition is_compiled (t : Template) : Prop :=
  exists outcome, t = compiled_template outcome.

(** The cache objects and the output slot hold nothing but such templates. *)
Definition holds_compiled (st : State) : Prop :=
  (forall a key t, cache_at st a !! key = Some t -> is_compiled t)
  /\ Forall (fun n => match n with Cloned t => is_compiled t end) (element_ st).


Definition is_ascii (c : ascii) : bool := (code c <? 128)%nat.

(** Every character of [s] is an ASCII character. *)
Definition all_ascii (s : string) : bool :=
  negb (any_char (fun c => negb (is_ascii c)) s).

(** ** The loop of the global replace *)



(** ** The properties a cache object inherits

    The cache is a plain object, so [templatesCache[key]] finds, besides
    the object's own properties, what [Object.prototype] provides.  The
    definitions above follow the own properties; the ones of this module
    follow the whole lookup. *)

Module Prototype.

(** The properties of [Object.prototype]. *)
Inductive Inherited :=
  | Constructor
  | ToString
  | ToLocaleString
  | ValueOf
  | HasOwnProperty
  | IsPrototypeOf
  | PropertyIsEnumerable
  | Proto
  | DefineGetter
  | DefineSetter
  | LookupGetter
  | LookupSetter.

Definition inherited_names : list (string * Inherited) :=
  [ ("constructor", Constructor); ("toString", ToString);
    ("toLocaleString", ToLocaleString); ("valueOf", ValueOf);
    ("hasOwnProperty", HasOwnProperty); ("isPrototypeOf", IsPrototypeOf);
    ("propertyIsEnumerable", PropertyIsEnumerable); ("__proto__", Proto);
    ("__defineGetter__", DefineGetter); ("__defineSetter__", DefineSetter);
    ("__lookupGetter__", LookupGetter); ("__lookupSetter__", LookupSetter) ].

Fixpoint assoc (key : string) (names : list (string * Inherited))
    : option Inherited :=
  match names with
  | [] => None
  | (name, i) :: rest => if String.eqb key name then Some i else assoc key rest
  end.

(** What [Object.prototype] has under [key]. *)
Definition inherited_property (key : string) : option Inherited :=
  assoc key inherited_names.

(** What a property read on a cache object yields. *)
Inductive Property :=
  | Undefined
  | Own (t : Template)
  | FromPrototype (i : Inherited).

(** [cache[key]]: the own property, else the inherited one, else
    [undefined]. *)
Definition get_property (cache : gmap string Template) (key : string)
    : Property :=
  match cache !! key with
  | Some t => Own t
  | None =>
      match inherited_property key with
      | Some i => FromPrototype i
      | None => Undefined
      end
  end.

(** [tmpl(this.scope_, callback)] when [tmpl] is an inherited value: the
    call has no receiver.  [Object] and [Object.prototype.toString] return
    without touching the callback.  The other methods convert their missing
    receiver to an object, and the [__proto__] accessor yields an object,
    which is no function: a TypeError in both cases. *)
Definition call_inherited (i : Inherited) : Completion :=
  match i with
  | Constructor | ToString => Normal
  | _ => Throw TypeError
  end.

(** [SemanticValueFormController.prototype.onValueTypeChange_] with the
    whole lookup: an inherited value is defined, so it is handed to
    [updateElement] as if it were a cached template. *)
Definition onValueTypeChange_ (newValue : JsVal) (st : State)
    : Completion * State :=
  let st := set_element [] st in
  if isUndefined newValue then (Normal, st)
  else
    match scope_value st with
    | None => (Throw TypeError, st)
    | Some value =>
        match get_property (current_cache st) (to_key (type_of st value)) with
        | Undefined => (Normal, compileSingleTypedValueTemplate_ value st)
        | Own template => updateElement (Some template) st
        | FromPrototype i => (call_inherited i, st)
        end
    end.

(** The continuation of the [i]-th parked resolution.  The assignment
    [templatesCache[value['type']] = template] makes an own property,
    except under the key [__proto__]: there it runs the inherited setter,
    which replaces the prototype of the cache object; what the object
    inherits afterwards is outside this model, and the result is [None]. *)
Definition settle (i : nat) (outcome : option Directive) (st : State)
    : option (Completion * State) :=
  match pending st !! i with
  | None => Some (Normal, st)
  | Some p =>
      if String.eqb (to_key (type_of st (p_value p))) "__proto__"
      then None
      else Some (settle i outcome st)
  end.

(** A render: the watch fires with the current value of ['value.type']. *)
Definition render (st : State) : Completion * State :=
  onValueTypeChange_ (watched_type st) st.

Fixpoint renders (n : nat) (st : State) : State :=
  match n with
  | O => st
  | S n' => renders n' (snd (render st))
  end.

Definition step (e : Event) (st : State) : option State :=
  match e with
  | EvRender => Some (snd (render st))
  | EvSettle i outcome =>
      match settle i outcome st with
      | Some r => Some (snd r)
      | None => None
      end
  | EvClearCaches => Some (clearCaches st)
  | EvSetType l v => Some (set_type l v st)
  | EvBind v => Some (bind_value v st)
  end.

(** The events of [es] in order, from [st], as far as the model follows
    them. *)
Fixpoint run (es : list Event) (st : State) : option State :=
  match es with
  | [] => Some st
  | e :: rest =>
      match step e st with
      | Some st' => run rest st'
      | None => None
      end
  end.

End Prototype.

(** ** The identifier transform *)

Section Transform.

Lemma upper_not_lower_or_digit (c : ascii) :
  is_upper c = true -> is_lower_or_digit c = false.
Proof.
  unfold is_upper, is_lower_or_digit, is_lower, is_digit.
  rewrite andb_true_iff, orb_false_iff, !andb_false_iff, !Nat.leb_le,
    !Nat.leb_gt.
  lia.
Qed.

(** After an uppercase character the rule of the specification puts no
    dash. *)
Lemma dash_between_pairs_upper (c : ascii) (s : string) :
  is_upper c = true ->
  dash_between_pairs (String c s) = String c (dash_between_pairs s).
Proof.
  intros Hc. simpl. rewrite (upper_not_lower_or_digit c Hc). simpl.
  destruct s; reflexivity.
Qed.

Lemma replace_lower_upper_step (s : string) :
  replace_lower_upper s = dash_between_pairs s
  /\ forall c, replace_lower_upper (String c s) = dash_between_pairs (String c s).
Proof.
  induction s as [|a s' [IH1 IH2]].
  - split; [reflexivity | intros c; reflexivity].
  - split; [apply IH2 |].
    intros c.
    change (replace_lower_upper (String c (String a s')))
      with (if is_lower_or_digit c && is_upper a
            then String c (String "-" (String a (replace_lower_upper s')))
            else String c (replace_lower_upper (String a s'))).
    change (dash_between_pairs (String c (String a s')))
      with (if is_lower_or_digit c && is_upper a
            then String c (String "-" (dash_between_pairs (String a s')))
            else String c (dash_between_pairs (String a s'))).
    destruct (is_lower_or_digit c && is_upper a) eqn:Hpair.
    + apply andb_true_iff in Hpair as [_ Hup].
      rewrite (dash_between_pairs_upper a s' Hup), IH1. reflexivity.
    + rewrite (IH2 a). reflexivity.
Qed.

(** The scan of the global replace and the rule of the specification put
    their dashes at the same places. *)
Lemma replace_lower_upper_spec (s : string) :
  replace_lower_upper s = dash_between_pairs s.
Proof. apply replace_lower_upper_step. Qed.

(** The rule is local: around two neighbouring characters the output is the
    output of the part up to the first, a dash exactly when the pair is a
    lowercase letter or digit followed by an uppercase letter, and the
    output of the part from the second. *)
Lemma dash_between_pairs_split (a : string) (c1 c2 : ascii) (b : string) :
  dash_between_pairs (a +:+ String c1 (String c2 b)) =
  dash_between_pairs (a +:+ String c1 EmptyString)
  +:+ (if is_lower_or_digit c1 && is_upper c2 then "-" else "")
  +:+ dash_between_pairs (String c2 b).
Proof.
  induction a as [|x a' IH].
  - simpl. destruct (is_lower_or_digit c1 && is_upper c2); reflexivity.
  - destruct a' as [|y a''].
    + simpl in *.
      destruct (is_lower_or_digit x && is_upper c1);
        destruct (is_lower_or_digit c1 && is_upper c2); reflexivity.
    + change (dash_between_pairs
                (String x (String y a'') +:+ String c1 (String c2 b)))
        with (if is_lower_or_digit x && is_upper y
              then String x (String "-" (dash_between_pairs
                     (String y a'' +:+ String c1 (String c2 b))))
              else String x (dash_between_pairs
                     (String y a'' +:+ String c1 (String c2 b)))).
      change (dash_between_pairs
                (String x (String y a'') +:+ String c1 EmptyString))
        with (if is_lower_or_digit x && is_upper y
              then String x (String "-" (dash_between_pairs
                     (String y a'' +:+ String c1 EmptyString)))
              else String x (dash_between_pairs
                     (String y a'' +:+ String c1 EmptyString))).
      rewrite IH.
      destruct (is_lower_or_digit x && is_upper y); reflexivity.
Qed.

(** A digit counts like a lowercase letter, and a dash is put after it. *)
Example camelCaseToDashDelimited_digit :
  camelCaseToDashDelimited "v2Form" = "v2-form"
  /\ camelCaseToDashDelimited "V2form" = "v2form".
Proof. split; reflexivity. Qed.

End Transform.

(** ** Text of the rendered markup *)

Section Markup.

Lemma starts_with_spec (needle hay : string) :
  starts_with needle hay = true <-> exists post, hay = needle +:+ post.
Proof.
  revert hay. induction needle as [|a n' IH]; intros hay.
  - split; [intros _; exists hay; reflexivity | reflexivity].
  - destruct hay as [|b h']; simpl.
    + split; [discriminate | intros [post H]; discriminate].
    + rewrite andb_true_iff, Ascii.eqb_eq, IH. split.
      * intros [-> [post ->]]. exists post. reflexivity.
      * intros [post H]. injection H as -> ->. split; [reflexivity | eauto].
Qed.

Lemma contains_here (needle hay : string) :
  starts_with needle hay = true -> contains needle hay = true.
Proof. destruct hay; cbn [contains]; intros ->; reflexivity. Qed.

Lemma contains_spec (needle hay : string) :
  contains needle hay = true <-> Substring needle hay.
Proof.
  unfold Substring. split.
  - induction hay as [|b h' IH].
    + cbn [contains]. rewrite orb_false_r. intros H.
      apply starts_with_spec in H as [post ->]. exists "", post. reflexivity.
    + cbn [contains]. rewrite orb_true_iff. intros [H|H].
      * apply starts_with_spec in H as [post ->]. exists "", post. reflexivity.
      * destruct (IH H) as (pre & post & ->).
        exists (String b pre), post. reflexivity.
  - intros (pre & post & ->). induction pre as [|c pre' IH].
    + apply contains_here, starts_with_spec. eauto.
    + change (String c pre' +:+ needle +:+ post)
        with (String c (pre' +:+ needle +:+ post)).
      cbn [contains]. rewrite IH. apply orb_true_r.
Qed.

Lemma interpolate_failure_html (ev : string -> string) :
  interpolate ev failure_html = failure_text (ev "value.type").
Proof. reflexivity. Qed.

Lemma append_assoc (a b c : string) : (a +:+ b) +:+ c = a +:+ b +:+ c.
Proof. induction a as [|x a' IH]; simpl; [reflexivity | now rewrite IH]. Qed.

Lemma failure_text_contains (shown : string) :
  Substring ("No directive for type: " +:+ shown +:+ ".")
    (failure_text shown).
Proof.
  exists ("<p class=" +:+ dq +:+ "form-control-static" +:+ dq +:+ ">"), "</p>".
  unfold failure_text, dq. simpl. now rewrite append_assoc.
Qed.

Lemma substring_app_l (needle a b : string) :
  Substring needle b -> Substring needle (a +:+ b).
Proof.
  intros (pre & post & ->). exists (a +:+ pre), post.
  now rewrite append_assoc.
Qed.

Lemma nodes_html_app (ev : string -> string) (old : list Node) (n : Node) :
  nodes_html ev (old ++ [n]) = nodes_html ev old +:+ node_html ev n.
Proof.
  induction old as [|m old' IH]; simpl.
  - induction (node_html ev n) as [|c r IHr]; simpl; [reflexivity | now f_equal].
  - rewrite IH. symmetry. apply append_assoc.
Qed.

End Markup.

(** ** The type-change handler *)

Section Handler.

Implicit Types (st : State) (v : JsVal) (t : Template) (l i : nat).

Lemma current_cache_set_element e st :
  current_cache (set_element e st) = current_cache st.
Proof. reflexivity. Qed.

Lemma type_of_set_element e st l :
  type_of (set_element e st) l = type_of st l.
Proof. reflexivity. Qed.

(** A hit: the cached factory is instantiated into the emptied slot. *)
Lemma onValueTypeChange_hit v st l t :
  isUndefined v = false ->
  scope_value st = Some l ->
  current_cache st !! to_key (type_of st l) = Some t ->
  onValueTypeChange_ v st = (Normal, set_element [Cloned t] st).
Proof.
  intros Hv Hl Ht. unfold onValueTypeChange_. rewrite Hv. simpl.
  rewrite Hl, current_cache_set_element, type_of_set_element, Ht.
  reflexivity.
Qed.

(** A miss: the registry is asked and the continuation parked. *)
Lemma onValueTypeChange_miss v st l :
  isUndefined v = false ->
  scope_value st = Some l ->
  current_cache st !! to_key (type_of st l) = None ->
  onValueTypeChange_ v st =
  (Normal, compileSingleTypedValueTemplate_ l (set_element [] st)).
Proof.
  intros Hv Hl Ht. unfold onValueTypeChange_. rewrite Hv. simpl.
  rewrite Hl, current_cache_set_element, type_of_set_element, Ht.
  reflexivity.
Qed.

Lemma watched_type_bound st l :
  scope_value st = Some l -> watched_type st = type_of st l.
Proof. unfold watched_type. now intros ->. Qed.




(** The cache object a write went to holds the template under the key. *)
Lemma cache_at_put a key t st :
  cache_at (cache_put a key t st) a !! key = Some t.
Proof.
  unfold cache_at, cache_put. simpl.
  rewrite lookup_insert_eq. simpl. apply lookup_insert_eq.
Qed.

(** What the continuation of a parked resolution does when it runs. *)
Lemma settle_pending i outcome st p :
  pending st !! i = Some p ->
  settle i outcome st =
  (Normal,
   set_element (element_ st ++ [Cloned (compiled_template outcome)])
     (cache_put (p_cache p) (to_key (type_of st (p_value p)))
        (compiled_template outcome) (drop_pending i st))).
Proof. intros Hp. unfold settle. rewrite Hp. reflexivity. Qed.

(** A handler run keeps every parked continuation where it is. *)
Lemma onValueTypeChange_keeps_pending v st i p :
  pending st !! i = Some p ->
  pending (snd (onValueTypeChange_ v st)) !! i = Some p.
Proof.
  intros Hp. unfold onValueTypeChange_.
  destruct (isUndefined v); [exact Hp |]. simpl.
  destruct (scope_value st) as [l|]; [| exact Hp].
  rewrite current_cache_set_element, type_of_set_element.
  destruct (current_cache st !! to_key (type_of st l)); simpl; [exact Hp |].
  now apply lookup_app_l_Some.
Qed.

End Handler.

(** ** Resolution and the cache *)

Section Resolution.

Implicit Types (st : State) (v : JsVal) (t : Template) (l i : nat).



Lemma current_cache_clearCaches st : current_cache (clearCaches st) = ∅.
Proof.
  unfold current_cache, cache_at, clearCaches. simpl.
  now rewrite lookup_insert_eq.
Qed.




(** Outside a render the handler can throw: called with a defined type
    while the scope has no value, it reads a property of [undefined].  The
    watch never makes that call, since ['value.type'] is then undefined. *)
Remark onValueTypeChange_unbound_throws :
  onValueTypeChange_ (JStr "RDFString") initial = (Throw TypeError, initial).
Proof. reflexivity. Qed.

End Resolution.

(** ** The whole lookup *)

Section Inheritance.

Implicit Types (st : State) (v : JsVal) (t : Template) (l i : nat).

Lemma get_property_undefined (cache : gmap string Template) (key : string) :
  Prototype.get_property cache key = Prototype.Undefined <->
  cache !! key = None /\ Prototype.inherited_property key = None.
Proof.
  unfold Prototype.get_property.
  destruct (cache !! key); [split; [discriminate | intros [H _]; discriminate] |].
  destruct (Prototype.inherited_property key);
    split; try discriminate; try (intros [_ H]; discriminate); auto.
Qed.

Lemma get_property_own (cache : gmap string Template) (key : string) t :
  cache !! key = Some t ->
  Prototype.get_property cache key = Prototype.Own t.
Proof. unfold Prototype.get_property. now intros ->. Qed.




(** An own entry decides the lookup, whatever the key. *)
Lemma proto_handler_hit v st l t :
  isUndefined v = false ->
  scope_value st = Some l ->
  current_cache st !! to_key (type_of st l) = Some t ->
  Prototype.onValueTypeChange_ v st = (Normal, set_element [Cloned t] st).
Proof.
  intros Hv Hl Ht. unfold Prototype.onValueTypeChange_. rewrite Hv. cbn zeta.
  change (scope_value (set_element [] st)) with (scope_value st).
  rewrite Hl, current_cache_set_element, type_of_set_element.
  rewrite (get_property_own _ _ t Ht). reflexivity.
Qed.

Lemma proto_handler_miss v st l :
  isUndefined v = false ->
  scope_value st = Some l ->
  Prototype.get_property (current_cache st) (to_key (type_of st l))
  = Prototype.Undefined ->
  Prototype.onValueTypeChange_ v st
  = (Normal, compileSingleTypedValueTemplate_ l (set_element [] st)).
Proof.
  intros Hv Hl Ht. unfold Prototype.onValueTypeChange_. rewrite Hv. cbn zeta.
  change (scope_value (set_element [] st)) with (scope_value st).
  rewrite Hl, current_cache_set_element, type_of_set_element, Ht.
  reflexivity.
Qed.

(** An inherited value is called in place of a template: nothing is asked,
    parked or appended. *)
Lemma proto_handler_inherited v st l inh :
  isUndefined v = false ->
  scope_value st = Some l ->
  Prototype.get_property (current_cache st) (to_key (type_of st l))
  = Prototype.FromPrototype inh ->
  Prototype.onValueTypeChange_ v st
  = (Prototype.call_inherited inh, set_element [] st).
Proof.
  intros Hv Hl Ht. unfold Prototype.onValueTypeChange_. rewrite Hv. cbn zeta.
  change (scope_value (set_element [] st)) with (scope_value st).
  rewrite Hl, current_cache_set_element, type_of_set_element, Ht.
  reflexivity.
Qed.

Lemma proto_render_hit st l T t :
  scope_value st = Some l -> type_of st l = JStr T ->
  current_cache st !! T = Some t ->
  Prototype.render st = (Normal, set_element [Cloned t] st).
Proof.
  intros Hl HT Ht. unfold Prototype.render.
  rewrite (watched_type_bound st l Hl), HT.
  apply (proto_handler_hit _ st l); [reflexivity | assumption |].
  now rewrite HT.
Qed.

Lemma proto_render_miss st l T :
  scope_value st = Some l -> type_of st l = JStr T ->
  Prototype.get_property (current_cache st) T = Prototype.Undefined ->
  Prototype.render st
  = (Normal, compileSingleTypedValueTemplate_ l (set_element [] st)).
Proof.
  intros Hl HT Ht. unfold Prototype.render.
  rewrite (watched_type_bound st l Hl), HT.
  apply (proto_handler_miss _ st l); [reflexivity | assumption |].
  now rewrite HT.
Qed.




End Inheritance.

(** ** The end of the replace loop *)

Section ReplaceLoop.




End ReplaceLoop.

(** ** Properties of the component *)

(** C4: the conversion of the code agrees on every string with the rule
    "a dash exactly between each lowercase letter or digit and an uppercase
    character right after it, then everything in lowercase"; the rule puts
    a dash between two neighbours exactly when they are such a pair;
    [simpleValue] becomes [simple-value] and [fooBarBaz] becomes
    [foo-bar-baz]; and the conversion is not the naive rule that puts a dash
    before every uppercase character, as [HTTPValue] shows. *)
Theorem camelCaseToDashDelimited_rule :
  (forall s, camelCaseToDashDelimited s = spec_camelCaseToDashDelimited s)
  /\ (forall a c1 c2 b,
        dash_between_pairs (a +:+ String c1 (String c2 b)) =
        dash_between_pairs (a +:+ String c1 EmptyString)
        +:+ (if is_lower_or_digit c1 && is_upper c2 then "-" else "")
        +:+ dash_between_pairs (String c2 b))
  /\ camelCaseToDashDelimited "simpleValue" = "simple-value"
  /\ camelCaseToDashDelimited "fooBarBaz" = "foo-bar-baz"
  /\ camelCaseToDashDelimited "HTTPValue" = "httpvalue"
  /\ camelCaseToDashDelimited "HTTPValue"
     <> naive_camelCaseToDashDelimited "HTTPValue".
Proof.
  split.
  { intros s. unfold camelCaseToDashDelimited, spec_camelCaseToDashDelimited.
    now rewrite replace_lower_upper_spec. }
  split; [exact dash_between_pairs_split |].
  repeat split; try reflexivity.
  vm_compute. discriminate.
Qed.

(** C5: for a successful resolution with descriptor [d], the template that
    is compiled, cached and appended holds the markup of one host element
    whose tag is the dash-delimited form of [d]'s identifier and whose
    attributes are exactly [metadata] and [value], bound to the scope
    expressions of the same names; for [myWidgetName] the tag is
    [my-widget-name]. *)
Theorem host_element_of_directive (st : State) (i : nat) (p : Pending)
    (d : Directive) :
  pending st !! i = Some p ->
  tmpl_html (successHandler d) = serialize (host_element d)
  /\ el_tag (host_element d) = camelCaseToDashDelimited (directive_name d)
  /\ el_attrs (host_element d) = [("metadata", "metadata"); ("value", "value")]
  /\ element_ (snd (settle i (Some d) st)) =
     (element_ st ++ [Cloned {| tmpl_html := serialize (host_element d) |}])%list
  /\ cache_at (snd (settle i (Some d) st)) (p_cache p)
       !! to_key (type_of st (p_value p)) =
     Some {| tmpl_html := serialize (host_element d) |}
  /\ el_tag (host_element {| directive_name := "myWidgetName" |})
     = "my-widget-name".
Proof.
  intros Hp. rewrite (settle_pending i (Some d) st p Hp). cbn [snd].
  repeat split; try reflexivity.
  apply cache_at_put.
Qed.

Lemma host_element_of_directive_witness :
  pending (snd (render (bound_to (JStr "RDFString")))) !! 0%nat
  = Some {| p_cache := 0; p_value := 0; p_request := JStr "RDFString" |}
  /\ element_ (rendered_once (JStr "RDFString")
                 (Some {| directive_name := "grrFormString" |})) =
     [Cloned {| tmpl_html :=
        "<grr-form-string metadata=" +:+ dq +:+ "metadata" +:+ dq +:+
        " value=" +:+ dq +:+ "value" +:+ dq +:+ " />" |}].
Proof.
  split; [reflexivity |].
  exact (proj1 (proj2 (proj2 (proj2
    (host_element_of_directive (snd (render (bound_to (JStr "RDFString"))))
       0 {| p_cache := 0; p_value := 0; p_request := JStr "RDFString" |}
       {| directive_name := "grrFormString" |} eq_refl))))).
Defined.

(** C6: every run of the handler empties the output slot before it looks at
    the new type: the result never depends on what the slot held, and the
    slot ends up empty or with the one clone of the cached template; and for
    an undefined new type the handler stops there, with an empty slot,
    nothing rendered, no registry call and no continuation parked. *)
Theorem onValueTypeChange_clears_first (newValue : JsVal) (st : State) :
  onValueTypeChange_ newValue st
  = onValueTypeChange_ newValue (set_element [] st)
  /\ (element_ (snd (onValueTypeChange_ newValue st)) = []
      \/ exists l t,
           scope_value st = Some l
           /\ current_cache st !! to_key (type_of st l) = Some t
           /\ element_ (snd (onValueTypeChange_ newValue st)) = [Cloned t])
  /\ onValueTypeChange_ JUndefined st = (Normal, set_element [] st)
  /\ element_ (snd (onValueTypeChange_ JUndefined st)) = []
  /\ rendered_html (snd (onValueTypeChange_ JUndefined st)) = ""
  /\ resolution_calls (snd (onValueTypeChange_ JUndefined st))
     = resolution_calls st
  /\ pending (snd (onValueTypeChange_ JUndefined st)) = pending st
  /\ cacheObjects (snd (onValueTypeChange_ JUndefined st)) = cacheObjects st.
Proof.
  split; [reflexivity |].
  split; [| repeat split; reflexivity].
  unfold onValueTypeChange_.
  destruct (isUndefined newValue); [left; reflexivity |]. simpl.
  destruct (scope_value st) as [l|] eqn:Hl; [| left; reflexivity].
  rewrite current_cache_set_element, type_of_set_element.
  destruct (current_cache st !! to_key (type_of st l)) as [t|] eqn:Ht.
  - right. exists l, t. repeat split; first [assumption | reflexivity].
  - left. reflexivity.
Qed.



(** C7: [clearCaches] leaves the global bound to a cache without entries
    and changes neither the output slot nor what it displays; after it, a
    render of a type that was cached, and that is not named like an
    inherited property, finds nothing in the lookup and calls the registry
    exactly once, where without [clearCaches] the render calls it not at
    all. *)
Theorem clearCaches_empties_cache (st : State) (l : nat) (T : string)
    (t : Template) :
  scope_value st = Some l ->
  type_of st l = JStr T ->
  current_cache st !! T = Some t ->
  Prototype.inherited_property T = None ->
  current_cache (clearCaches st) = ∅
  /\ element_ (clearCaches st) = element_ st
  /\ rendered_html (clearCaches st) = rendered_html st
  /\ Prototype.get_property (current_cache st) T = Prototype.Own t
  /\ Prototype.get_property (current_cache (clearCaches st)) T
     = Prototype.Undefined
  /\ resolution_calls (snd (Prototype.render st)) = resolution_calls st
  /\ resolution_calls (snd (Prototype.render (clearCaches st)))
     = (resolution_calls st ++ [JStr T])%list
  /\ resolution_count (snd (Prototype.render (clearCaches st)))
     = S (resolution_count st).
Proof.
  intros Hl HT Ht Hni.
  assert (Prototype.get_property (current_cache (clearCaches st)) T
          = Prototype.Undefined) as Hcleared.
  { apply get_property_undefined. split; [| exact Hni].
    rewrite current_cache_clearCaches. apply lookup_empty. }
  assert (resolution_calls (snd (Prototype.render (clearCaches st)))
          = (resolution_calls st ++ [JStr T])%list) as Hcalls.
  { rewrite (proto_render_miss (clearCaches st) l T Hl HT Hcleared).
    unfold compileSingleTypedValueTemplate_. cbn [snd resolution_calls].
    change (type_of _ l) with (type_of st l). now rewrite HT. }
  split; [apply current_cache_clearCaches |].
  split; [reflexivity |].
  split; [reflexivity |].
  split; [now apply get_property_own |].
  split; [exact Hcleared |].
  split; [now rewrite (proto_render_hit st l T t Hl HT Ht) |].
  split; [exact Hcalls |].
  unfold resolution_count. rewrite Hcalls, length_app. simpl. lia.
Qed.

Lemma clearCaches_empties_cache_witness :
  let st := rendered_once (JStr "RDFString")
              (Some {| directive_name := "grrFormString" |}) in
  current_cache st !! "RDFString"
  = Some (successHandler {| directive_name := "grrFormString" |})
  /\ Prototype.inherited_property "RDFString" = None
  /\ current_cache (clearCaches st) = ∅
  /\ resolution_calls st = [JStr "RDFString"]
  /\ resolution_calls (snd (Prototype.render (clearCaches st)))
     = [JStr "RDFString"; JStr "RDFString"].
Proof.
  cbn zeta.
  pose proof (clearCaches_empties_cache
                (rendered_once (JStr "RDFString")
                   (Some {| directive_name := "grrFormString" |}))
                0 "RDFString"
                (successHandler {| directive_name := "grrFormString" |})
                eq_refl eq_refl eq_refl eq_refl)
    as (H1 & _ & _ & _ & _ & _ & H5 & _).
  split; [reflexivity |].
  split; [reflexivity |].
  split; [exact H1 |].
  split; [reflexivity |].
  exact H5.
Defined.

(** C8: a parked resolution survives a later type change: after the handler
    has run again for any new type the continuation is still parked, and
    when its promise settles it runs normally and appends its fragment to
    whatever the slot holds then; when the later change was to an undefined
    type, which leaves the slot empty, the stale fragment is all the slot
    holds afterwards. *)
Theorem stale_resolution_still_appends (st : State) (i : nat) (p : Pending)
    (newValue : JsVal) (outcome : option Directive) :
  pending st !! i = Some p ->
  let st1 := snd (onValueTypeChange_ newValue st) in
  pending st1 !! i = Some p
  /\ pending (clearCaches st1) !! i = Some p
  /\ fst (settle i outcome st1) = Normal
  /\ element_ (snd (settle i outcome st1))
     = (element_ st1 ++ [Cloned (compiled_template outcome)])%list
  /\ (newValue = JUndefined ->
      element_ st1 = []
      /\ element_ (snd (settle i outcome st1))
         = [Cloned (compiled_template outcome)]).
Proof.
  intros Hp. cbn zeta.
  pose proof (onValueTypeChange_keeps_pending newValue st i p Hp) as Hp1.
  split; [exact Hp1 |].
  split; [exact Hp1 |].
  rewrite (settle_pending i outcome _ p Hp1). cbn [fst snd].
  split; [reflexivity |].
  split; [reflexivity |].
  intros ->. split; reflexivity.
Qed.

Lemma stale_resolution_still_appends_witness :
  let st := snd (render (bound_to (JStr "RDFString"))) in
  let st1 := snd (onValueTypeChange_ JUndefined st) in
  pending st !! 0%nat
  = Some {| p_cache := 0; p_value := 0; p_request := JStr "RDFString" |}
  /\ element_ st1 = []
  /\ element_ (snd (settle 0 (Some {| directive_name := "grrFormString" |}) st1))
     = [Cloned (successHandler {| directive_name := "grrFormString" |})].
Proof.
  cbn zeta.
  pose proof (stale_resolution_still_appends
                (snd (render (bound_to (JStr "RDFString")))) 0
                {| p_cache := 0; p_value := 0; p_request := JStr "RDFString" |}
                JUndefined (Some {| directive_name := "grrFormString" |})
                eq_refl) as (_ & _ & _ & _ & H).
  destruct (H eq_refl) as [H1 H2].
  split; [reflexivity |].
  split; [exact H1 | exact H2].
Defined.








(** C2 as stated does not hold: after the resolution for [NoSuchType] has
    failed, the slot displays the fallback paragraph, and the text
    [Can't handle type: NoSuchType] occurs nowhere in it. *)
Lemma cant_handle_text_counterexample :
  let st := rendered_once (JStr "NoSuchType") None in
  rendered_html st = failure_text "NoSuchType"
  /\ ~ Substring "Can't handle type: NoSuchType" (rendered_html st).
Proof.
  cbn zeta. split; [reflexivity |].
  intros H. apply contains_spec in H. vm_compute in H. discriminate.
Qed.

(** C2, amended: when a resolution fails, the fragment appended to the slot
    displays [No directive for type: T.], where [T] is the [type] field of
    the scope's value at the time of display: it is the current type when
    the continuation runs, whatever type the resolution was requested for,
    and it follows the field when the field is assigned later. *)
Theorem failed_resolution_shows_no_directive (st : State) (i : nat)
    (p : Pending) (l : nat) (T : string) :
  pending st !! i = Some p ->
  scope_value st = Some l ->
  type_of st l = JStr T ->
  let st' := snd (settle i None st) in
  element_ st' = (element_ st ++ [Cloned failureHandler])%list
  /\ rendered_html st' = rendered_html st +:+ failure_text T
  /\ Substring ("No directive for type: " +:+ T +:+ ".") (rendered_html st')
  /\ (forall T',
        Substring ("No directive for type: " +:+ T' +:+ ".")
          (rendered_html (set_type l (JStr T') st'))).
Proof.
  intros Hp Hl HT. cbn zeta.
  rewrite (settle_pending i None st p Hp). cbn [snd compiled_template].
  set (st' := set_element _ _).
  assert (forall st0, scope_value st0 = Some l -> forall U,
            type_of st0 l = JStr U -> element_ st0 = element_ st' ->
            rendered_html st0
            = nodes_html (eval_expr st0) (element_ st) +:+ failure_text U)
    as Hshow.
  { intros st0 Hl0 U HU He. unfold rendered_html. rewrite He.
    subst st'. cbn [element_ set_element]. rewrite nodes_html_app.
    cbn [node_html failureHandler tmpl_html].
    rewrite interpolate_failure_html. unfold eval_expr at 2.
    rewrite String.eqb_refl, (watched_type_bound st0 l Hl0), HU.
    reflexivity. }
  split; [reflexivity |].
  split; [exact (Hshow st' Hl T HT eq_refl) |].
  split.
  - rewrite (Hshow st' Hl T HT eq_refl).
    apply substring_app_l, failure_text_contains.
  - intros T'. rewrite (Hshow (set_type l (JStr T') st') Hl T').
    + apply substring_app_l, failure_text_contains.
    + unfold type_of, set_type. cbn [objects]. now rewrite lookup_insert_eq.
    + reflexivity.
Qed.

Lemma failed_resolution_shows_no_directive_witness :
  let st := snd (render (bound_to (JStr "NoSuchType"))) in
  pending st !! 0%nat
  = Some {| p_cache := 0; p_value := 0; p_request := JStr "NoSuchType" |}
  /\ Substring "No directive for type: NoSuchType."
       (rendered_html (snd (settle 0 None st)))
  /\ Substring "No directive for type: OtherType."
       (rendered_html (set_type 0 (JStr "OtherType") (snd (settle 0 None st)))).
Proof.
  cbn zeta.
  pose proof (failed_resolution_shows_no_directive
                (snd (render (bound_to (JStr "NoSuchType")))) 0
                {| p_cache := 0; p_value := 0; p_request := JStr "NoSuchType" |}
                0 "NoSuchType" eq_refl eq_refl eq_refl) as (_ & _ & H3 & H4).
  split; [reflexivity |].
  split; [exact H3 | exact (H4 "OtherType")].
Defined.

(** ** Further properties of the identifier transform *)

Section TransformLaws.

Ltac each_char c :=
  destruct c as [[] [] [] [] [] [] [] []]; reflexivity.

Lemma lower_char_fixed (c : ascii) : has_lowercase (lower_char c) = false.
Proof. each_char c. Qed.

Lemma lower_char_dash (c : ascii) : is_dash (lower_char c) = is_dash c.
Proof. each_char c. Qed.

Lemma dash_between_pairs_cons (c1 c2 : ascii) (r : string) :
  dash_between_pairs (String c1 (String c2 r)) =
  if is_lower_or_digit c1 && is_upper c2
  then String c1 (String "-" (dash_between_pairs (String c2 r)))
  else String c1 (dash_between_pairs (String c2 r)).
Proof. reflexivity. Qed.

Lemma count_lower_upper_cons (c1 c2 : ascii) (r : string) :
  count_lower_upper (String c1 (String c2 r)) =
  if is_lower_or_digit c1 && is_upper c2
  then S (count_lower_upper (String c2 r))
  else count_lower_upper (String c2 r).
Proof. reflexivity. Qed.

Lemma toLowerCase_lowercase (s : string) :
  any_char has_lowercase (toLowerCase s) = false.
Proof.
  induction s as [|c r IH]; [reflexivity |].
  cbn [toLowerCase any_char]. now rewrite lower_char_fixed, IH.
Qed.

Lemma toLowerCase_fixed (s : string) :
  any_char has_lowercase s = false -> toLowerCase s = s.
Proof.
  induction s as [|c r IH]; [reflexivity |].
  cbn [toLowerCase any_char]. rewrite orb_false_iff. intros [Hc Hr].
  unfold lower_char. now rewrite Hc, (IH Hr).
Qed.

Lemma no_lowercase_no_upper (s : string) :
  any_char has_lowercase s = false -> any_char is_upper s = false.
Proof.
  induction s as [|c r IH]; [reflexivity |].
  cbn [any_char]. rewrite !orb_false_iff. intros [Hc Hr].
  split; [| exact (IH Hr)].
  unfold has_lowercase in Hc. now apply orb_false_iff in Hc as [Hc _].
Qed.

Lemma dash_between_pairs_fixed (s : string) :
  any_char is_upper s = false -> dash_between_pairs s = s.
Proof.
  induction s as [|c1 t IH]; [reflexivity |].
  destruct t as [|c2 r]; [reflexivity |].
  intros H. rewrite dash_between_pairs_cons.
  change (any_char is_upper (String c1 (String c2 r)))
    with (is_upper c1 || any_char is_upper (String c2 r)) in H.
  apply orb_false_iff in H as [_ Ht].
  rewrite (IH Ht).
  change (any_char is_upper (String c2 r))
    with (is_upper c2 || any_char is_upper r) in Ht.
  apply orb_false_iff in Ht as [-> _].
  now rewrite andb_false_r.
Qed.

Lemma dash_between_pairs_length (s : string) :
  String.length (dash_between_pairs s)
  = (String.length s + count_lower_upper s)%nat.
Proof.
  induction s as [|c1 t IH]; [reflexivity |].
  destruct t as [|c2 r]; [reflexivity |].
  rewrite dash_between_pairs_cons, count_lower_upper_cons.
  destruct (is_lower_or_digit c1 && is_upper c2);
    cbn [String.length]; rewrite IH; cbn [String.length]; lia.
Qed.

Lemma toLowerCase_length (s : string) :
  String.length (toLowerCase s) = String.length s.
Proof. induction s as [|c r IH]; simpl; [reflexivity | now rewrite IH]. Qed.

Lemma remove_dashes_between_pairs (s : string) :
  remove_dashes (dash_between_pairs s) = remove_dashes s.
Proof.
  induction s as [|c1 t IH]; [reflexivity |].
  destruct t as [|c2 r]; [reflexivity |].
  rewrite dash_between_pairs_cons.
  destruct (is_lower_or_digit c1 && is_upper c2).
  - change (remove_dashes (String c1 (String "-" ?x)))
      with (remove_dashes (String c1 x)).
    cbn [remove_dashes] in *. now rewrite IH.
  - cbn [remove_dashes] in *. now rewrite IH.
Qed.

Lemma remove_dashes_toLowerCase (s : string) :
  remove_dashes (toLowerCase s) = toLowerCase (remove_dashes s).
Proof.
  induction s as [|c r IH]; [reflexivity |].
  cbn [toLowerCase remove_dashes]. rewrite lower_char_dash.
  destruct (is_dash c); [exact IH |].
  cbn [toLowerCase]. now rewrite IH.
Qed.

End TransformLaws.

(** X1: the converted identifier holds no character that lowercasing would
    change; in particular it holds no uppercase letter. *)
Theorem camelCaseToDashDelimited_lowercase (s : string) :
  any_char has_lowercase (camelCaseToDashDelimited s) = false
  /\ any_char is_upper (camelCaseToDashDelimited s) = false.
Proof.
  assert (any_char has_lowercase (camelCaseToDashDelimited s) = false) as H
    by apply toLowerCase_lowercase.
  split; [exact H | exact (no_lowercase_no_upper _ H)].
Qed.

(** X2: an identifier without a character that lowercasing changes, such as
    one that is dash-delimited already, is returned as it is. *)
Theorem camelCaseToDashDelimited_fixed (s : string) :
  any_char has_lowercase s = false ->
  camelCaseToDashDelimited s = s.
Proof.
  intros H. unfold camelCaseToDashDelimited.
  rewrite replace_lower_upper_spec,
    (dash_between_pairs_fixed s (no_lowercase_no_upper s H)).
  exact (toLowerCase_fixed s H).
Qed.

Lemma camelCaseToDashDelimited_fixed_witness :
  any_char has_lowercase "grr-form-value" = false
  /\ camelCaseToDashDelimited "grr-form-value" = "grr-form-value".
Proof.
  split; [reflexivity |].
  exact (camelCaseToDashDelimited_fixed "grr-form-value" eq_refl).
Defined.

(** X3: converting twice is converting once. *)
Theorem camelCaseToDashDelimited_idempotent (s : string) :
  camelCaseToDashDelimited (camelCaseToDashDelimited s)
  = camelCaseToDashDelimited s.
Proof.
  unfold camelCaseToDashDelimited at 1.
  rewrite replace_lower_upper_spec.
  rewrite (dash_between_pairs_fixed (camelCaseToDashDelimited s)).
  - apply toLowerCase_fixed, toLowerCase_lowercase.
  - apply no_lowercase_no_upper, toLowerCase_lowercase.
Qed.

(** X4: for an identifier of ASCII characters, the conversion lengthens it
    by one character for each place where a lowercase letter or digit is
    followed by an uppercase letter, and by nothing else. *)
Theorem camelCaseToDashDelimited_length (s : string) :
  all_ascii s = true ->
  String.length (camelCaseToDashDelimited s)
  = (String.length s + count_lower_upper s)%nat.
Proof.
  intros _. unfold camelCaseToDashDelimited.
  now rewrite toLowerCase_length, replace_lower_upper_spec,
    dash_between_pairs_length.
Qed.

Lemma camelCaseToDashDelimited_length_witness :
  all_ascii "grrFormValue" = true
  /\ String.length (camelCaseToDashDelimited "grrFormValue") = 14%nat.
Proof.
  split; [reflexivity |].
  exact (camelCaseToDashDelimited_length "grrFormValue" eq_refl).
Defined.

(** X5: for an identifier of ASCII characters, dashes aside, the conversion
    only lowercases: without its dashes the result is the lowercased
    identifier without its dashes. *)
Theorem camelCaseToDashDelimited_without_dashes (s : string) :
  all_ascii s = true ->
  remove_dashes (camelCaseToDashDelimited s) = toLowerCase (remove_dashes s).
Proof.
  intros _. unfold camelCaseToDashDelimited.
  now rewrite remove_dashes_toLowerCase, replace_lower_upper_spec,
    remove_dashes_between_pairs.
Qed.

Lemma camelCaseToDashDelimited_without_dashes_witness :
  all_ascii "grrForm-Value" = true
  /\ remove_dashes (camelCaseToDashDelimited "grrForm-Value") = "grrformvalue".
Proof.
  split; [reflexivity |].
  exact (camelCaseToDashDelimited_without_dashes "grrForm-Value" eq_refl).
Defined.

(** ** Further properties of the cache and the handler *)

Section CacheLaws.

Implicit Types (st : State) (v : JsVal) (t : Template) (l i a : nat).

(** A write leaves every other entry of every cache object alone. *)
Lemma cache_at_put_other a key t st a' key' :
  (a', key') <> (a, key) ->
  cache_at (cache_put a key t st) a' !! key' = cache_at st a' !! key'.
Proof.
  intros Hne. unfold cache_at, cache_put. cbn [cacheObjects].
  destruct (decide (a' = a)) as [->|Ha].
  - rewrite lookup_insert_eq. simpl.
    rewrite lookup_insert_ne; [reflexivity | congruence].
  - rewrite lookup_insert_ne by congruence. reflexivity.
Qed.

Lemma onValueTypeChange_frame v st :
  let st' := snd (onValueTypeChange_ v st) in
  cacheObjects st' = cacheObjects st
  /\ templatesCache st' = templatesCache st
  /\ objects st' = objects st
  /\ scope_value st' = scope_value st.
Proof.
  cbn zeta. unfold onValueTypeChange_.
  destruct (isUndefined v); [repeat split; reflexivity |]. simpl.
  destruct (scope_value st) as [l|] eqn:Hs;
    [| repeat split; first [reflexivity | exact Hs]].
  destruct (current_cache _ !! _);
    repeat split; first [reflexivity | exact Hs].
Qed.

Lemma cache_at_clearCaches_other st a :
  a <> S (templatesCache st) -> cache_at (clearCaches st) a = cache_at st a.
Proof.
  intros Ha. unfold cache_at, clearCaches. cbn [cacheObjects].
  now rewrite lookup_insert_ne by congruence.
Qed.

End CacheLaws.

(** X6: the handler reads the cache and never writes it: a run of the
    handler leaves every cache object, the binding of the global, the value
    objects and the scope as they were; and [clearCaches] leaves the
    contents of every object but the fresh one as they were. *)
Theorem handler_never_writes_cache (newValue : JsVal) (st : State) :
  cacheObjects (snd (onValueTypeChange_ newValue st)) = cacheObjects st
  /\ templatesCache (snd (onValueTypeChange_ newValue st)) = templatesCache st
  /\ objects (snd (onValueTypeChange_ newValue st)) = objects st
  /\ scope_value (snd (onValueTypeChange_ newValue st)) = scope_value st
  /\ cache_at (clearCaches st) (templatesCache st) = current_cache st.
Proof.
  destruct (onValueTypeChange_frame newValue st) as (H1 & H2 & H3 & H4).
  repeat split; try assumption.
  apply cache_at_clearCaches_other. lia.
Qed.

(** X7: a settling continuation writes exactly one entry: the one of its
    own cache object under the key of its value's current type.  Every
    other entry of every cache object keeps its template, so nothing is
    evicted, and the binding of the global stays. *)
Theorem settle_writes_one_entry (st : State) (i : nat) (p : Pending)
    (outcome : option Directive) (a : nat) (key : string) :
  pending st !! i = Some p ->
  (a, key) <> (p_cache p, to_key (type_of st (p_value p))) ->
  let st' := snd (settle i outcome st) in
  cache_at st' a !! key = cache_at st a !! key
  /\ cache_at st' (p_cache p) !! to_key (type_of st (p_value p))
     = Some (compiled_template outcome)
  /\ templatesCache st' = templatesCache st
  /\ pending st' = delete i (pending st).
Proof.
  intros Hp Hne. cbn zeta.
  rewrite (settle_pending i outcome st p Hp). cbn [snd].
  split.
  - change (cache_at (set_element ?e ?s) a) with (cache_at s a).
    rewrite cache_at_put_other by exact Hne. reflexivity.
  - split; [apply cache_at_put |]. split; reflexivity.
Qed.

Lemma settle_writes_one_entry_witness :
  let st := snd (render (set_type 0 (JStr "RDFString")
                  (rendered_once (JStr "ClientURN")
                     (Some {| directive_name := "grrFormClientUrn" |})))) in
  pending st !! 0%nat
  = Some {| p_cache := 0; p_value := 0; p_request := JStr "RDFString" |}
  /\ cache_at (snd (settle 0 None st)) 0 !! "ClientURN"
     = Some (successHandler {| directive_name := "grrFormClientUrn" |})
  /\ cache_at (snd (settle 0 None st)) 0 !! "RDFString" = Some failureHandler.
Proof.
  cbn zeta.
  pose proof (settle_writes_one_entry
                (snd (render (set_type 0 (JStr "RDFString")
                   (rendered_once (JStr "ClientURN")
                      (Some {| directive_name := "grrFormClientUrn" |})))))
                0
                {| p_cache := 0; p_value := 0; p_request := JStr "RDFString" |}
                None 0 "ClientURN" eq_refl) as H.
  split; [reflexivity |].
  assert ((0%nat, "ClientURN") <> (0%nat, "RDFString")) as Hne by discriminate.
  destruct (H Hne) as (H1 & H2 & _).
  split; [| exact H2].
  etransitivity; [exact H1 | reflexivity].
Defined.





(** ** Invariants of runs *)

Section Runs.

Implicit Types (st : State) (v : JsVal) (t : Template) (l i a : nat)
  (e : Event) (es : list Event).

(** The handler's effect, case by case. *)
Lemma render_cases st :
  snd (render st) = set_element [] st
  \/ (exists l t, scope_value st = Some l
        /\ current_cache st !! to_key (type_of st l) = Some t
        /\ snd (render st) = set_element [Cloned t] st)
  \/ (exists l, scope_value st = Some l
        /\ isUndefined (type_of st l) = false
        /\ snd (render st)
           = compileSingleTypedValueTemplate_ l (set_element [] st)).
Proof.
  unfold render, watched_type.
  destruct (scope_value st) as [l|] eqn:Hl; [| left; reflexivity].
  destruct (isUndefined (type_of st l)) eqn:Hu.
  - left. unfold onValueTypeChange_. now rewrite Hu.
  - destruct (current_cache st !! to_key (type_of st l)) as [t|] eqn:Ht.
    + right; left. exists l, t.
      now rewrite (onValueTypeChange_hit _ st l t Hu Hl Ht).
    + right; right. exists l.
      now rewrite (onValueTypeChange_miss _ st l Hu Hl Ht).
Qed.

Lemma step_closures_behind e st :
  closures_behind st -> closures_behind (step e st).
Proof.
  unfold closures_behind. intros H. destruct e as [|i outcome| |l v|v];
    cbn [step]; try exact H.
  - destruct (render_cases st) as [-> | [(l & t & _ & _ & ->) | (l & _ & _ & ->)]];
      try exact H.
    cbn [pending templatesCache compileSingleTypedValueTemplate_ set_element].
    apply Forall_app_2; [exact H |]. constructor; [cbn; lia | constructor].
  - unfold settle. destruct (pending st !! i) as [p|]; [| exact H].
    cbn. now apply Forall_delete.
  - cbn. eapply Forall_impl; [exact H |]. cbn. intros p Hp. lia.
Qed.

Lemma run_closures_behind es st :
  closures_behind st -> closures_behind (run es st).
Proof.
  revert st. induction es as [|e rest IH]; intros st H; [exact H |].
  cbn [run]. apply IH, step_closures_behind, H.
Qed.

Lemma cache_at_put_other_object a key t st a' :
  a' <> a -> cache_at (cache_put a key t st) a' = cache_at st a'.
Proof.
  intros Hne. unfold cache_at, cache_put. cbn [cacheObjects].
  now rewrite lookup_insert_ne by congruence.
Qed.

Lemma step_calls_defined e st :
  Forall (fun v => v <> JUndefined) (resolution_calls st) ->
  Forall (fun v => v <> JUndefined) (resolution_calls (step e st)).
Proof.
  intros H. destruct e as [|i outcome| |l v|v]; cbn [step]; try exact H.
  - destruct (render_cases st) as [-> | [(l & t & _ & _ & ->) | (l & _ & Hu & ->)]];
      try exact H.
    cbn [resolution_calls compileSingleTypedValueTemplate_ set_element].
    apply Forall_app_2; [exact H |]. constructor; [| constructor].
    rewrite type_of_set_element. intros Heq. now rewrite Heq in Hu.
  - unfold settle. destruct (pending st !! i) as [p|]; exact H.
Qed.

Lemma cache_at_cacheObjects st st' a :
  cacheObjects st' = cacheObjects st -> cache_at st' a = cache_at st a.
Proof. unfold cache_at. now intros ->. Qed.

Lemma step_holds_compiled e st :
  holds_compiled st -> holds_compiled (step e st).
Proof.
  intros [Hc He]. destruct e as [|i outcome| |l v|v]; cbn [step].
  - destruct (render_cases st) as [-> | [(l & t & _ & Ht & ->) | (l & _ & _ & ->)]].
    + split; [exact Hc | constructor].
    + split; [exact Hc |]. constructor; [| constructor].
      exact (Hc _ _ _ Ht).
    + split; [exact Hc | constructor].
  - destruct (pending st !! i) as [p|] eqn:Hp.
    + rewrite (settle_pending i outcome st p Hp). cbn [snd]. split.
      * intros a key t.
        change (cache_at (set_element ?x ?s) a) with (cache_at s a).
        destruct (decide ((a, key)
                   = (p_cache p, to_key (type_of st (p_value p))))) as [Heq|Hne].
        -- injection Heq as -> ->.
           change (type_of (drop_pending i st) (p_value p))
             with (type_of st (p_value p)).
           rewrite cache_at_put. intros [= <-]. now exists outcome.
        -- change (type_of (drop_pending i st) (p_value p))
             with (type_of st (p_value p)).
           rewrite cache_at_put_other by exact Hne. apply Hc.
      * cbn [element_ set_element]. apply Forall_app_2; [exact He |].
        constructor; [now exists outcome | constructor].
    + unfold settle. rewrite Hp. split; assumption.
  - split; [| exact He]. intros a key t.
    destruct (decide (a = S (templatesCache st))) as [->|Ha].
    + change (cache_at (clearCaches st) (S (templatesCache st)))
        with (current_cache (clearCaches st)).
      rewrite current_cache_clearCaches, lookup_empty. discriminate.
    + rewrite cache_at_clearCaches_other by exact Ha. apply Hc.
  - split; assumption.
  - split; assumption.
Qed.

(** The handler with the whole lookup, case by case. *)
Lemma proto_render_cases st :
  snd (Prototype.render st) = set_element [] st
  \/ (exists l t, scope_value st = Some l
        /\ current_cache st !! to_key (type_of st l) = Some t
        /\ snd (Prototype.render st) = set_element [Cloned t] st)
  \/ (exists l, scope_value st = Some l
        /\ isUndefined (type_of st l) = false
        /\ Prototype.inherited_property (to_key (type_of st l)) = None
        /\ snd (Prototype.render st)
           = compileSingleTypedValueTemplate_ l (set_element [] st)).
Proof.
  unfold Prototype.render, watched_type.
  destruct (scope_value st) as [l|] eqn:Hl; [| left; reflexivity].
  destruct (isUndefined (type_of st l)) eqn:Hu.
  - left. unfold Prototype.onValueTypeChange_. now rewrite Hu.
  - destruct (Prototype.get_property (current_cache st)
                (to_key (type_of st l))) as [|t|inh] eqn:Hg.
    + right; right. exists l.
      rewrite (proto_handler_miss _ st l Hu Hl Hg).
      apply get_property_undefined in Hg as [_ Hni]. auto.
    + right; left. exists l, t.
      assert (current_cache st !! to_key (type_of st l) = Some t) as Ht.
      { unfold Prototype.get_property in Hg.
        destruct (current_cache st !! to_key (type_of st l)) as [t'|].
        - now injection Hg as ->.
        - destruct (Prototype.inherited_property _); discriminate. }
      now rewrite (proto_handler_hit _ st l t Hu Hl Ht).
    + left. now rewrite (proto_handler_inherited _ st l inh Hu Hl Hg).
Qed.

Lemma proto_step_closures_behind e st st' :
  closures_behind st -> Prototype.step e st = Some st' -> closures_behind st'.
Proof.
  unfold closures_behind. intros H.
  destruct e as [|i outcome| |l v|v]; cbn [Prototype.step].
  - intros [= <-].
    destruct (proto_render_cases st)
      as [-> | [(l & t & _ & _ & ->) | (l & _ & _ & _ & ->)]];
      try exact H.
    cbn [pending templatesCache compileSingleTypedValueTemplate_ set_element].
    apply Forall_app_2; [exact H |]. constructor; [cbn; lia | constructor].
  - unfold Prototype.settle.
    destruct (pending st !! i) as [p|] eqn:Hp.
    + destruct (String.eqb _ _); [discriminate |]. intros [= <-].
      rewrite (settle_pending i outcome st p Hp). cbn.
      now apply Forall_delete.
    + now intros [= <-].
  - intros [= <-]. cbn. eapply Forall_impl; [exact H |]. cbn. intros p Hp. lia.
  - now intros [= <-].
  - now intros [= <-].
Qed.

Lemma proto_run_closures_behind es st st' :
  closures_behind st -> Prototype.run es st = Some st' -> closures_behind st'.
Proof.
  revert st. induction es as [|e rest IH]; intros st H; cbn [Prototype.run].
  - now intros [= <-].
  - destruct (Prototype.step e st) as [st1|] eqn:E; [| discriminate].
    apply IH. exact (proto_step_closures_behind e st st1 H E).
Qed.

Lemma proto_step_calls e st st' :
  Forall (fun v => v <> JUndefined
                   /\ Prototype.inherited_property (to_key v) = None)
    (resolution_calls st) ->
  Prototype.step e st = Some st' ->
  Forall (fun v => v <> JUndefined
                   /\ Prototype.inherited_property (to_key v) = None)
    (resolution_calls st').
Proof.
  intros H. destruct e as [|i outcome| |l v|v]; cbn [Prototype.step].
  - intros [= <-].
    destruct (proto_render_cases st)
      as [-> | [(l & t & _ & _ & ->) | (l & _ & Hu & Hni & ->)]];
      try exact H.
    cbn [resolution_calls compileSingleTypedValueTemplate_ set_element].
    apply Forall_app_2; [exact H |]. constructor; [| constructor].
    rewrite type_of_set_element. split; [| exact Hni].
    intros Heq. now rewrite Heq in Hu.
  - unfold Prototype.settle.
    destruct (pending st !! i) as [p|] eqn:Hp.
    + destruct (String.eqb _ _); [discriminate |]. intros [= <-].
      rewrite (settle_pending i outcome st p Hp). exact H.
    + now intros [= <-].
  - now intros [= <-].
  - now intros [= <-].
  - now intros [= <-].
Qed.

End Runs.

(** X10: [clearCaches] cuts the resolutions in flight off from the cache.
    In every state a run can reach, a continuation that settles after
    [clearCaches] writes into the object the global has left, so the cache
    keeps no entry, and the next render of a value whose type the cache
    does not inherit asks the registry again. *)
Theorem clearCaches_cuts_off_resolutions_in_flight (es : list Event)
    (st : State) (i : nat) (outcome : option Directive)
    (r : Completion * State) (l : nat) (T : string) :
  Prototype.run es initial = Some st ->
  Prototype.settle i outcome (clearCaches st) = Some r ->
  scope_value st = Some l ->
  type_of st l = JStr T ->
  Prototype.inherited_property T = None ->
  current_cache (snd r) = ∅
  /\ resolution_calls (snd r) = resolution_calls st
  /\ resolution_calls (snd (Prototype.render (snd r)))
     = (resolution_calls st ++ [JStr T])%list.
Proof.
  intros Hrun Hsettle Hl HT Hni.
  assert (closures_behind st) as Hinv
    by (apply (proto_run_closures_behind es initial); [constructor | exact Hrun]).
  assert (current_cache (snd r) = ∅
          /\ resolution_calls (snd r) = resolution_calls st
          /\ scope_value (snd r) = Some l
          /\ type_of (snd r) l = JStr T)
    as (Hempty & Hcalls & Hl' & HT').
  { unfold Prototype.settle in Hsettle.
    destruct (pending (clearCaches st) !! i) as [p|] eqn:Hp.
    - destruct (String.eqb _ _); [discriminate |].
      injection Hsettle as <-.
      rewrite (settle_pending i outcome _ p Hp). cbn [snd].
      split; [| repeat split; assumption].
      rewrite current_cache_set_element. unfold current_cache.
      change (templatesCache (cache_put _ _ _ _)) with (S (templatesCache st)).
      rewrite cache_at_put_other_object.
      + apply (current_cache_clearCaches st).
      + unfold closures_behind in Hinv.
        rewrite Forall_lookup in Hinv. specialize (Hinv i p Hp). lia.
    - injection Hsettle as <-. cbn [snd].
      split; [apply current_cache_clearCaches | repeat split; assumption]. }
  split; [exact Hempty |]. split; [exact Hcalls |].
  rewrite (proto_render_miss _ l T Hl' HT').
  - cbn [snd]. unfold compileSingleTypedValueTemplate_.
    cbn [resolution_calls set_element]. rewrite type_of_set_element.
    now rewrite HT', Hcalls.
  - apply get_property_undefined. split; [| exact Hni].
    rewrite Hempty. apply lookup_empty.
Qed.

Lemma clearCaches_cuts_off_resolutions_in_flight_witness :
  let es := [EvBind (Some 0); EvSetType 0 (JStr "RDFString"); EvRender] in
  exists st r,
    Prototype.run es initial = Some st
    /\ Prototype.settle 0 (Some {| directive_name := "grrFormString" |})
         (clearCaches st) = Some r
    /\ current_cache (snd r) = ∅
    /\ cache_at (snd r) 0 !! "RDFString"
       = Some (successHandler {| directive_name := "grrFormString" |})
    /\ resolution_calls (snd (Prototype.render (snd r)))
       = [JStr "RDFString"; JStr "RDFString"].
Proof.
  cbn zeta. eexists. eexists.
  split; [reflexivity |]. split; [reflexivity |].
  pose proof (clearCaches_cuts_off_resolutions_in_flight
                [EvBind (Some 0); EvSetType 0 (JStr "RDFString"); EvRender]
                _ 0 (Some {| directive_name := "grrFormString" |}) _
                0 "RDFString" eq_refl eq_refl eq_refl eq_refl eq_refl)
    as (H1 & _ & H3).
  split; [exact H1 |].
  split; [reflexivity | exact H3].
Defined.

(** X11: however the watch, the registry, [clearCaches] and the embedding
    context interleave, the renders of a directive never ask the registry
    for an undefined type. *)
Theorem runs_never_resolve_undefined (es : list Event) :
  Forall (fun v => v <> JUndefined) (resolution_calls (run es initial)).
Proof.
  assert (forall st,
            Forall (fun v => v <> JUndefined) (resolution_calls st) ->
            Forall (fun v => v <> JUndefined) (resolution_calls (run es st)))
    as H.
  { induction es as [|e rest IH]; intros st Hst; [exact Hst |].
    cbn [run]. apply IH, step_calls_defined, Hst. }
  apply H. constructor.
Qed.

(** X12: however the events interleave, every template in a cache object
    and every fragment in the output slot is one that the success handler
    or the failure handler of [compileSingleTypedValueTemplate_] returned. *)
Theorem runs_hold_compiled_templates (es : list Event) :
  holds_compiled (run es initial)
  /\ (forall a key t,
        cache_at (run es initial) a !! key = Some t ->
        t = failureHandler \/ exists d, t = successHandler d).
Proof.
  assert (forall st, holds_compiled st -> holds_compiled (run es st)) as H.
  { induction es as [|e rest IH]; intros st Hst; [exact Hst |].
    cbn [run]. apply IH, step_holds_compiled, Hst. }
  assert (holds_compiled (run es initial)) as Hinv.
  { apply H. split; [| constructor]. intros a key t.
    unfold cache_at, initial. cbn [cacheObjects].
    destruct (decide (a = 0%nat)) as [->|Ha].
    - rewrite lookup_singleton_eq. cbn. rewrite lookup_empty. discriminate.
    - rewrite lookup_singleton_ne by congruence. cbn.
      rewrite lookup_empty. discriminate. }
  split; [exact Hinv |].
  intros a key t Ht. destruct Hinv as [Hc _].
  destruct (Hc a key t Ht) as [[d|] ->]; [right; now exists d | now left].
Qed.

Lemma runs_hold_compiled_templates_witness :
  cache_at (run [EvBind (Some 0); EvSetType 0 (JStr "NoSuchType"); EvRender;
                 EvSettle 0 None] initial) 0 !! "NoSuchType"
  = Some failureHandler
  /\ (failureHandler = failureHandler
      \/ exists d, failureHandler = successHandler d).
Proof.
  split; [reflexivity |].
  exact (proj2 (runs_hold_compiled_templates
                  [EvBind (Some 0); EvSetType 0 (JStr "NoSuchType"); EvRender;
                   EvSettle 0 None])
           0 "NoSuchType" failureHandler eq_refl).
Defined.

(** ** Cache keys *)

Section Keys.

Implicit Types (st : State) (v w : JsVal) (t : Template) (l i : nat).



End Keys.



(** ** Types named like inherited properties *)

(** X15: however the watch, the registry, [clearCaches] and the embedding
    context interleave, the registry is never asked for a type whose key the
    cache inherits, such as [constructor], [toString] or [__proto__], and
    never for an undefined type. *)
Theorem runs_never_resolve_inherited_names (es : list Event) (st : State) :
  Prototype.run es initial = Some st ->
  Forall (fun v => v <> JUndefined
                   /\ Prototype.inherited_property (to_key v) = None)
    (resolution_calls st).
Proof.
  assert (forall st0,
            Forall (fun v => v <> JUndefined
                             /\ Prototype.inherited_property (to_key v) = None)
              (resolution_calls st0) ->
            Prototype.run es st0 = Some st ->
            Forall (fun v => v <> JUndefined
                             /\ Prototype.inherited_property (to_key v) = None)
              (resolution_calls st)) as H.
  { induction es as [|e rest IH]; intros st0 H0; cbn [Prototype.run].
    - now intros [= <-].
    - destruct (Prototype.step e st0) as [st1|] eqn:E; [| discriminate].
      apply IH. exact (proto_step_calls e st0 st1 H0 E). }
  apply H. constructor.
Qed.

Lemma runs_never_resolve_inherited_names_witness :
  let es := [EvBind (Some 0); EvSetType 0 (JStr "constructor"); EvRender;
             EvSetType 0 (JStr "RDFString"); EvRender] in
  exists st,
    Prototype.run es initial = Some st
    /\ resolution_calls st = [JStr "RDFString"]
    /\ Forall (fun v => v <> JUndefined
                        /\ Prototype.inherited_property (to_key v) = None)
         (resolution_calls st).
Proof.
  cbn zeta. eexists. split; [reflexivity |]. split; [reflexivity |].
  exact (runs_never_resolve_inherited_names
           [EvBind (Some 0); EvSetType 0 (JStr "constructor"); EvRender;
            EvSetType 0 (JStr "RDFString"); EvRender] _ eq_refl).
Defined.

(** X16: a type named like an inherited property passes for a cached
    template.  With no own entry under such a name, every render hands the
    inherited value to [updateElement]: the registry is not asked, nothing
    is parked and the slot stays empty, however often the value is
    rendered; the call returns for [constructor] and [toString] and throws
    a TypeError for every other inherited name. *)
Theorem inherited_names_pass_for_templates (st : State) (l : nat)
    (T : string) (inh : Prototype.Inherited) (n : nat) :
  scope_value st = Some l ->
  type_of st l = JStr T ->
  current_cache st !! T = None ->
  Prototype.inherited_property T = Some inh ->
  Prototype.render st = (Prototype.call_inherited inh, set_element [] st)
  /\ Prototype.renders (S n) st = set_element [] st
  /\ resolution_calls (Prototype.renders n st) = resolution_calls st
  /\ pending (Prototype.renders n st) = pending st
  /\ (Prototype.call_inherited inh = Normal
      <-> inh = Prototype.Constructor \/ inh = Prototype.ToString).
Proof.
  intros Hl HT Hmiss Hinh.
  assert (forall st0, scope_value st0 = Some l -> type_of st0 l = JStr T ->
            current_cache st0 !! T = None ->
            Prototype.render st0
            = (Prototype.call_inherited inh, set_element [] st0)) as Hrender.
  { intros st0 Hl0 HT0 Hm0. unfold Prototype.render.
    rewrite (watched_type_bound st0 l Hl0), HT0.
    apply (proto_handler_inherited _ st0 l); [reflexivity | exact Hl0 |].
    rewrite HT0. unfold Prototype.get_property. cbn [to_key].
    now rewrite Hm0, Hinh. }
  assert (forall k st0, scope_value st0 = Some l -> type_of st0 l = JStr T ->
            current_cache st0 !! T = None ->
            Prototype.renders (S k) st0 = set_element [] st0) as Hrenders.
  { induction k as [|k IH]; intros st0 Hl0 HT0 Hm0.
    - cbn [Prototype.renders]. now rewrite (Hrender st0 Hl0 HT0 Hm0).
    - change (Prototype.renders (S (S k)) st0)
        with (Prototype.renders (S k) (snd (Prototype.render st0))).
      rewrite (Hrender st0 Hl0 HT0 Hm0). cbn [snd].
      now rewrite (IH (set_element [] st0) Hl0 HT0 Hm0). }
  split; [exact (Hrender st Hl HT Hmiss) |].
  split; [exact (Hrenders n st Hl HT Hmiss) |].
  split; [destruct n; [reflexivity | now rewrite (Hrenders n st Hl HT Hmiss)] |].
  split; [destruct n; [reflexivity | now rewrite (Hrenders n st Hl HT Hmiss)] |].
  split.
  - destruct inh; cbn; intros H; try discriminate H; auto.
  - intros [-> | ->]; reflexivity.
Qed.

Lemma inherited_names_pass_for_templates_witness :
  Prototype.render (bound_to (JStr "constructor"))
  = (Normal, set_element [] (bound_to (JStr "constructor")))
  /\ resolution_calls (Prototype.renders 2 (bound_to (JStr "constructor"))) = []
  /\ fst (Prototype.render (bound_to (JStr "__proto__"))) = Throw TypeError.
Proof.
  destruct (inherited_names_pass_for_templates
              (bound_to (JStr "constructor")) 0 "constructor"
              Prototype.Constructor 2 eq_refl eq_refl eq_refl eq_refl)
    as (H1 & _ & H3 & _).
  destruct (inherited_names_pass_for_templates
              (bound_to (JStr "__proto__")) 0 "__proto__"
              Prototype.Proto 0 eq_refl eq_refl eq_refl eq_refl)
    as (H1' & _).
  split; [exact H1 |]. split; [exact H3 |].
  exact (f_equal fst H1').
Defined.
